(** * Signal Decoder: the rule/round engine of [src/App.tsx]

    A shallow embedding of the game logic of the single React component
    [App]: the grid builder, the five level rules, the target set, the
    event handlers ([toggleSelect], [submit], [nextLevel], [prevLevel],
    [resetLevel]), the round-initialising effect and the gating that the
    rendered buttons put in front of the handlers.

    JavaScript numbers are modelled as [Z] (every number the component
    manipulates is a small integer); [Math.floor (a / b)] is [Z.div],
    the remainder operator [%] is [Z.rem], a [Set<number>] is a
    [gset Z]. *)

From Stdlib Require Import ZArith Zdivisibility Lia.
From stdpp Require Import base decidable list strings gmap fin_sets.
From Equations Require Import Equations.

Local Open Scope Z_scope.
Set Warnings "-clear-no-such-hyp".

(** ** Grid model *)

Module Grid.

Record Cell := mkCell { index : Z; row : Z; col : Z }.

#[global] Instance Cell_eq_dec : EqDecision Cell.
Proof. solve_decision. Defined.

Definition GRID_SIZE : Z := 5.
Definition FLASH_DURATION_MS : Z := 10000.
Definition FLASH_INTERVAL_MS : Z := 600.

(** [{ index: i, row: Math.floor(i / n), col: i % n }] *)
Definition cellAt (n i : Z) : Cell :=
  {| index := i; row := i / n; col := Z.rem i n |}.

(** The loop [for (let i = 0; i < n * n; i++) cells.push(...)], entered
    with counter [i] and the cells pushed so far; [n] stands for the
    constant [GRID_SIZE]. *)
Equations? buildLoop (n i : Z) (cells : list Cell) : list Cell
  by wf (Z.to_nat (n * n - i)) lt :=
  buildLoop n i cells with decide (i < n * n) => {
    | left _ => buildLoop n (i + 1) (cells ++ [cellAt n i]);
    | right _ => cells
  }.
Proof. lia. Qed.

Definition buildCellsOf (n : Z) : list Cell := buildLoop n 0 [].

Definition buildCells : list Cell := buildCellsOf GRID_SIZE.

End Grid.

Import Grid.

(** ** Rule catalog *)

Module Rules.

(** [for (let i = 2; i * i <= n; i++) if (n % i === 0) return false;
    return true], entered with counter [i]. *)
Equations? primeLoop (n i : Z) : bool
  by wf (Z.to_nat (n + 1 - i)) lt :=
  primeLoop n i with decide (i * i <= n) => {
    | left _ => if decide (Z.rem n i = 0) then false
                else primeLoop n (i + 1);
    | right _ => true
  }.
Proof. nia. Qed.

Definition isPrime (n : Z) : bool :=
  if decide (n < 2) then false else primeLoop n 2.

Record Level := mkLevel { id : Z; ruleFn : Cell → bool }.

Definition evenRule (c : Cell) : bool :=
  bool_decide (Z.rem (index c) 2 = 0).

Definition diagonalRule (c : Cell) : bool :=
  bool_decide (row c = col c) || bool_decide (row c + col c = GRID_SIZE - 1).

Definition primeRule (c : Cell) : bool := isPrime (index c).

Definition centerRule (c : Cell) : bool :=
  let center := (GRID_SIZE * GRID_SIZE) / 2 in
  let cr := center / GRID_SIZE in
  let cc := Z.rem center GRID_SIZE in
  let dr := Z.abs (row c - cr) in
  let dc := Z.abs (col c - cc) in
  (bool_decide (dr = 0) && bool_decide (dc = 0)) || bool_decide (dr + dc = 1).

Definition modSumRule (c : Cell) : bool :=
  bool_decide (Z.rem (row c + col c) 3 = 0).

Definition LEVELS : list Level :=
  [ mkLevel 1 evenRule;
    mkLevel 2 diagonalRule;
    mkLevel 3 primeRule;
    mkLevel 4 centerRule;
    mkLevel 5 modSumRule ].

(** [for (const c of cells) if (level.ruleFn(c)) s.add(c.index)] *)
Definition targetSetOf (cells : list Cell) (level : Level) : gset Z :=
  foldl (λ s c, if ruleFn level c then s ∪ {[index c]} else s) ∅ cells.

End Rules.

Import Rules.

(** ** Component state *)

Module App.

Record Results := mkResults { correct : gset Z; incorrect : gset Z }.

(** The [useState] cells of [App], in declaration order. *)
Record State := mkState {
  levelIndex : Z;
  isFlashing : bool;
  flashOn : bool;
  selected : gset Z;
  results : option Results;
  score : Z;
  hintShown : bool;
  timeLeft : Z;
  round : Z
}.

(** State setters; each takes an updater, as [setX(prev => ...)] does. *)
Definition setLevelIndex (f : Z → Z) (s : State) : State :=
  mkState (f (levelIndex s)) (isFlashing s) (flashOn s) (selected s)
          (results s) (score s) (hintShown s) (timeLeft s) (round s).
Definition setIsFlashing (f : bool → bool) (s : State) : State :=
  mkState (levelIndex s) (f (isFlashing s)) (flashOn s) (selected s)
          (results s) (score s) (hintShown s) (timeLeft s) (round s).
Definition setFlashOn (f : bool → bool) (s : State) : State :=
  mkState (levelIndex s) (isFlashing s) (f (flashOn s)) (selected s)
          (results s) (score s) (hintShown s) (timeLeft s) (round s).
Definition setSelected (f : gset Z → gset Z) (s : State) : State :=
  mkState (levelIndex s) (isFlashing s) (flashOn s) (f (selected s))
          (results s) (score s) (hintShown s) (timeLeft s) (round s).
Definition setResults (f : option Results → option Results) (s : State)
  : State :=
  mkState (levelIndex s) (isFlashing s) (flashOn s) (selected s)
          (f (results s)) (score s) (hintShown s) (timeLeft s) (round s).
Definition setScore (f : Z → Z) (s : State) : State :=
  mkState (levelIndex s) (isFlashing s) (flashOn s) (selected s)
          (results s) (f (score s)) (hintShown s) (timeLeft s) (round s).
Definition setHintShown (f : bool → bool) (s : State) : State :=
  mkState (levelIndex s) (isFlashing s) (flashOn s) (selected s)
          (results s) (score s) (f (hintShown s)) (timeLeft s) (round s).
Definition setTimeLeft (f : Z → Z) (s : State) : State :=
  mkState (levelIndex s) (isFlashing s) (flashOn s) (selected s)
          (results s) (score s) (hintShown s) (f (timeLeft s)) (round s).
Definition setRound (f : Z → Z) (s : State) : State :=
  mkState (levelIndex s) (isFlashing s) (flashOn s) (selected s)
          (results s) (score s) (hintShown s) (timeLeft s) (f (round s)).

(** [Math.ceil(a / b)] on integers. *)
Definition ceilDiv (a b : Z) : Z := - ((- a) / b).

Definition fullCountdown : Z := ceilDiv FLASH_DURATION_MS 1000.

(** The initial values handed to [useState]. *)
Definition initialState : State :=
  mkState 0 true true ∅ None 0 false fullCountdown 0.

(** ** Render-time values *)

(** [const level = LEVELS[levelIndex]]: [undefined] outside the array. *)
Definition currentLevel (s : State) : option Level :=
  if decide (0 <= levelIndex s) then LEVELS !! Z.to_nat (levelIndex s)
  else None.

(** The memoised [targetSet] of the render. *)
Definition targetSet (s : State) : option (gset Z) :=
  targetSetOf buildCells <$> currentLevel s.

(** The three phases, read off the header of the grid:
    [isFlashing ? "Memorize" : results ? "Result" : "Select the cells"]. *)
Inductive Phase := Memorizing | Selecting | Resulted.

#[global] Instance Phase_eq_dec : EqDecision Phase.
Proof. solve_decision. Defined.

Definition phase (s : State) : Phase :=
  if isFlashing s then Memorizing
  else match results s with Some _ => Resulted | None => Selecting end.

(** ** Handlers *)

(** The body of the effect that starts a round. *)
Definition startRound (s : State) : State :=
  setTimeLeft (λ _, fullCountdown)
    (setHintShown (λ _, false)
      (setResults (λ _, None)
        (setSelected (λ _, ∅)
          (setFlashOn (λ _, true)
            (setIsFlashing (λ _, true) s))))).

(** The timer callbacks installed by the effect. *)
Definition flashToggle : State → State := setFlashOn negb.
Definition countdownTick : State → State :=
  setTimeLeft (λ t, if decide (t > 0) then t - 1 else 0).
Definition stopFlashing (s : State) : State :=
  setFlashOn (λ _, false) (setIsFlashing (λ _, false) s).

Definition toggleSelect (idx : Z) (s : State) : State :=
  if isFlashing s then s
  else match results s with
       | Some _ => s
       | None =>
           setSelected
             (λ prev, if decide (idx ∈ prev) then prev ∖ {[idx]}
                      else prev ∪ {[idx]}) s
       end.

(** One iteration of [for (const idx of selected)] in [submit], on the
    pair of sets [(correct, incorrect)] under construction. *)
Definition classify (targets : gset Z) (acc : gset Z * gset Z) (idx : Z)
  : gset Z * gset Z :=
  if decide (idx ∈ targets) then (acc.1 ∪ {[idx]}, acc.2)
  else (acc.1, acc.2 ∪ {[idx]}).

(** One iteration of [for (const t of targetSet)] in [submit]. *)
Definition collectMissed (sel : gset Z) (missed : gset Z) (t : Z) : gset Z :=
  if decide (t ∈ sel) then missed else missed ∪ {[t]}.

(** [submit], closed over the [targetSet] of the render it belongs to. *)
Definition submit (targets : gset Z) (s : State) : State :=
  if isFlashing s then s
  else
    let '(correct, incorrect) :=
      foldl (classify targets) (∅, ∅) (elements (selected s)) in
    let missed := foldl (collectMissed (selected s)) ∅ (elements targets) in
    let delta := Z.of_nat (size correct) - Z.of_nat (size incorrect) in
    setResults
      (λ _, Some (mkResults correct
                    (list_to_set (elements incorrect ++ elements missed))))
      (setScore (λ sc, sc + Z.max 0 delta) s).

Definition nextLevel : State → State :=
  setLevelIndex (λ i, Z.min (Z.of_nat (length LEVELS) - 1) (i + 1)).
Definition prevLevel : State → State :=
  setLevelIndex (λ i, Z.max 0 (i - 1)).
Definition resetLevel : State → State := setRound (λ r, r + 1).
Definition selectLevel (i : Z) : State → State := setLevelIndex (λ _, i).
Definition toggleHint : State → State := setHintShown negb.

(** ** Events *)

(** What can happen to the mounted component: a click on one of the
    rendered controls, or one of the three timers of the effect firing. *)
Inductive Event :=
  | ClickCell (idx : Z)
  | ClickSubmit
  | ClickNext
  | ClickPrev
  | ClickRestart
  | ClickHint
  | ClickLevel (i : Z)
  | FlashTick
  | CountdownTick
  | FlashTimeout.

#[global] Instance Event_eq_dec : EqDecision Event.
Proof. solve_decision. Defined.

(** Whether the control is rendered and not [disabled], or the timer is
    still installed. Cells come from [cells.map], level buttons from
    [LEVELS.map]; the timers live from the effect until [stop] fires or
    the effect is cleaned up, that is exactly while [isFlashing]. *)
Definition live (s : State) (e : Event) : bool :=
  match e with
  | ClickCell idx => bool_decide (idx ∈ index <$> buildCells)
  | ClickSubmit => negb (isFlashing s || bool_decide (is_Some (results s)))
  | ClickNext =>
      negb (bool_decide (levelIndex s = Z.of_nat (length LEVELS) - 1))
  | ClickPrev => negb (bool_decide (levelIndex s = 0))
  | ClickRestart | ClickHint => true
  | ClickLevel i => bool_decide (0 <= i < Z.of_nat (length LEVELS))
  | FlashTick | CountdownTick | FlashTimeout => isFlashing s
  end.

(** The handler bound to each event. *)
Definition handle (targets : gset Z) (e : Event) : State → State :=
  match e with
  | ClickCell idx => toggleSelect idx
  | ClickSubmit => submit targets
  | ClickNext => nextLevel
  | ClickPrev => prevLevel
  | ClickRestart => resetLevel
  | ClickHint => toggleHint
  | ClickLevel i => selectLevel i
  | FlashTick => flashToggle
  | CountdownTick => countdownTick
  | FlashTimeout => stopFlashing
  end.

(** The effect has dependencies [[levelIndex, round, cells]]; [cells] is
    memoised once, so it re-runs exactly when one of the first two
    changed. *)
Definition runEffect (old new : State) : State :=
  if decide (levelIndex new = levelIndex old ∧ round new = round old)
  then new else startRound new.

(** One event of the mounted component: render (which needs the current
    level), run the handler if the control is live, then the effect. *)
Definition dispatch (s : State) (e : Event) : option State :=
  targets ← targetSet s;
  Some (if live s e then runEffect s (handle targets e s) else s).

Fixpoint run (s : State) (es : list Event) : option State :=
  match es with
  | [] => Some s
  | e :: es' => s' ← dispatch s e; run s' es'
  end.

Inductive reachable : State → Prop :=
  | reachable_init : reachable initialState
  | reachable_step s e s' :
      reachable s → dispatch s e = Some s' → reachable s'.

(** ** Reference notions used in the statements *)

(** The level index points into the catalog. *)
Definition validLevel (s : State) : Prop :=
  0 <= levelIndex s < Z.of_nat (length LEVELS).

(** The round contribution and the result of a submission, written with
    set operations instead of loops. *)
Definition roundDelta (sel targets : gset Z) : Z :=
  Z.max 0 (Z.of_nat (size (sel ∩ targets)) - Z.of_nat (size (sel ∖ targets))).

Definition roundResults (sel targets : gset Z) : Results :=
  mkResults (sel ∩ targets) ((sel ∖ targets) ∪ (targets ∖ sel)).

(** The target set of the first level, and the state after the flashing
    period of the first round has ended, cell 0 was selected and the
    selection submitted. *)
Definition evenTargets : gset Z :=
  list_to_set [0; 2; 4; 6; 8; 10; 12; 14; 16; 18; 20; 22; 24].

Definition resultedState : State :=
  mkState 0 false false {[0]}
    (Some (mkResults {[0]}
             (list_to_set [2; 4; 6; 8; 10; 12; 14; 16; 18; 20; 22; 24])))
    1 false fullCountdown 0.

(** ** The rules as the specification words them *)

Definition inGrid (i : Z) : Prop := 0 <= i < GRID_SIZE * GRID_SIZE.

(** The five canonical rules over a cell index [i] of the 5x5 grid, with
    [row = i / 5] and [col = i mod 5]. *)
Definition canonicalRule (k : nat) (i : Z) : Prop :=
  let r := i / 5 in
  let c := i mod 5 in
  match k with
  | 0%nat => i mod 2 = 0
  | 1%nat => r = c ∨ r + c = 4
  | 2%nat => Z.prime i
  | 3%nat => Z.abs (r - 12 / 5) + Z.abs (c - 12 mod 5) <= 1
  | 4%nat => (r + c) mod 3 = 0
  | _ => False
  end.

End App.

Import App.

(** ** Rendering *)

Module View.

(** The class names of one grid cell, as the body of [cells.map] in the
    returned markup pushes them. *)
Definition cellClassNames (targets : gset Z) (s : State) (c : Cell)
  : list string :=
  let isTarget := bool_decide (index c ∈ targets) in
  let isLit := isFlashing s && isTarget && flashOn s in
  let isSelected := bool_decide (index c ∈ selected s) in
  let resCorrect :=
    match results s with
    | Some r => bool_decide (index c ∈ correct r)
    | None => false
    end in
  let resIncorrect :=
    match results s with
    | Some r => bool_decide (index c ∈ incorrect r)
    | None => false
    end in
  ["cell"%string]
  ++ (if isLit then ["lit"%string] else [])
  ++ (if isSelected then ["selected"%string] else [])
  ++ match results s with
     | Some _ =>
         if resCorrect then ["correct"%string]
         else if resIncorrect then ["incorrect"%string] else []
     | None => []
     end.


(** The status word of the actions panel:
    [results ? "Results" : isFlashing ? "Watching" : "Ready"]. *)
Definition statusLabel (s : State) : string :=
  match results s with
  | Some _ => "Results"
  | None => if isFlashing s then "Watching" else "Ready"
  end.

(** The two counters of the result summary, [results.correct.size] and
    [results.incorrect.size]; nothing is shown without a result. *)
Definition resultCounts (s : State) : option (nat * nat) :=
  (λ r, (size (correct r), size (incorrect r))) <$> results s.

End View.

Import View.

(** ** Timer handles *)

Module Timers.

(** Which of the three timers of the effect are installed: the flash
    interval, the countdown interval and the one-shot timeout. *)
Record Handles := mkHandles { toggle : bool; countdown : bool; stop : bool }.

#[global] Instance Handles_eq_dec : EqDecision Handles.
Proof. solve_decision. Defined.

(** All three handles in the same condition. *)
Definition flags (b : bool) : Handles := mkHandles b b b.

(** A timer fires only while its handle is installed; clicks are as in
    [live]. *)
Definition fires (h : Handles) (s : State) (e : Event) : bool :=
  match e with
  | FlashTick => toggle h
  | CountdownTick => countdown h
  | FlashTimeout => stop h
  | _ => live s e
  end.

(** The timeout callback clears both intervals, and has itself fired. *)
Definition afterHandler (h : Handles) (e : Event) : Handles :=
  match e with
  | FlashTimeout => mkHandles false false false
  | _ => h
  end.

(** When the effect re-runs, the cleanup of the previous run clears its
    three timers and the new run installs three new ones. *)
Definition afterEffect (old new : State) (h : Handles) : Handles :=
  if decide (levelIndex new = levelIndex old ∧ round new = round old)
  then h else mkHandles true true true.

(** [dispatch], with the handles carried along. *)
Definition dispatchT (sh : State * Handles) (e : Event)
  : option (State * Handles) :=
  targets ← targetSet sh.1;
  Some (if fires sh.2 sh.1 e
        then (runEffect sh.1 (handle targets e sh.1),
              afterEffect sh.1 (handle targets e sh.1) (afterHandler sh.2 e))
        else sh).

(** On mount the effect has installed the three timers. *)
Definition initialT : State * Handles :=
  (initialState, mkHandles true true true).

Inductive reachableT : State * Handles → Prop :=
  | reachableT_init : reachableT initialT
  | reachableT_step sh e sh' :
      reachableT sh → dispatchT sh e = Some sh' → reachableT sh'.

End Timers.

Import Timers.

(** * Properties *)

(** ** Grid *)

Section GridFacts.

Lemma buildLoop_seqZ (n i : Z) (cells : list Cell) :
  buildLoop n i cells = cells ++ (cellAt n <$> seqZ i (n * n - i)).
Proof.
  funelim (buildLoop n i cells).
  - rewrite H. rewrite (seqZ_cons i (n * n - i)) by lia.
    rewrite <- app_assoc. simpl.
    replace (Z.succ i) with (i + 1) by lia.
    replace (Z.pred (n * n - i)) with (n * n - (i + 1)) by lia.
    reflexivity.
  - rewrite seqZ_nil by lia. simpl. by rewrite app_nil_r.
Qed.

Lemma buildCellsOf_seqZ (n : Z) :
  buildCellsOf n = cellAt n <$> seqZ 0 (n * n).
Proof.
  unfold buildCellsOf. rewrite buildLoop_seqZ. simpl.
  by replace (n * n - 0) with (n * n) by lia.
Qed.

Lemma buildCellsOf_indices (n : Z) :
  index <$> buildCellsOf n = seqZ 0 (n * n).
Proof.
  rewrite buildCellsOf_seqZ, <- list_fmap_compose.
  apply list_fmap_id.
Qed.

Lemma elem_of_buildCellsOf (n : Z) (c : Cell) :
  c ∈ buildCellsOf n ↔ ∃ i, 0 <= i < n * n ∧ c = cellAt n i.
Proof.
  rewrite buildCellsOf_seqZ, list_elem_of_fmap.
  split.
  - intros (i & -> & Hi). apply elem_of_seqZ in Hi. exists i. split; [lia|done].
  - intros (i & Hi & ->). exists i. split; [done|]. apply elem_of_seqZ. lia.
Qed.

End GridFacts.

(** ** Primality test *)

Section PrimeFacts.

(** The loop answers [true] exactly when no counter value from [i] up
    to the square root of [n] divides [n]. *)
Lemma primeLoop_true (n i : Z) :
  0 < i →
  primeLoop n i = true ↔ ∀ d, i <= d → d * d <= n → ¬ (d | n).
Proof.
  funelim (primeLoop n i); intros Hi.
  - clear Heq. destruct (decide (Z.rem n i = 0)) as [Hr|Hr].
    + split; [done|]. intros Hd. exfalso. apply (Hd i); [lia|lia|].
      apply Z.rem_divide; [lia|done].
    + rewrite H by lia. split.
      * intros Hd d Hid Hdd. destruct (decide (d = i)) as [-> | Hne].
        -- intros Hdiv. apply Hr. apply Z.rem_divide; [lia|done].
        -- apply Hd; lia.
      * intros Hd d Hid Hdd. apply Hd; lia.
  - split; [|done]. intros _ d Hid Hdd. nia.
Qed.

(** A proper divisor comes with a cofactor, and one of the two is at
    most the square root. *)
Lemma small_divisor (n d : Z) :
  1 < d < n → (d | n) → ∃ e, 2 <= e ∧ e * e <= n ∧ (e | n).
Proof.
  intros Hd [q Hq].
  assert (1 < q) by nia.
  destruct (decide (d <= q)).
  - exists d. split; [lia|]. split; [nia|]. by exists q.
  - exists q. split; [lia|]. split; [nia|]. exists d. lia.
Qed.

Lemma isPrime_prime (n : Z) : isPrime n = true ↔ Z.prime n.
Proof.
  unfold isPrime. destruct (decide (n < 2)) as [Hlt|Hge].
  - split; [done|]. intros Hp. apply Z.prime_ge_2 in Hp. lia.
  - rewrite primeLoop_true by lia. unfold Z.prime. split.
    + intros Hd. split; [lia|]. intros d Hdn Hdiv.
      destruct (small_divisor n d Hdn Hdiv) as (e & He & Hee & Hen).
      by apply (Hd e).
    + intros [_ Hd] d H2 Hdd Hdiv. apply (Hd d); [nia|done].
Qed.

Lemma isPrime_below_2 (n : Z) : n < 2 → isPrime n = false.
Proof. intros H. unfold isPrime. by rewrite decide_True. Qed.

End PrimeFacts.

(** ** Target sets *)

Section TargetFacts.

Lemma elem_of_targetSetOf_acc (level : Level) (cells : list Cell)
      (acc : gset Z) (i : Z) :
  i ∈ foldl (λ s c, if ruleFn level c then s ∪ {[index c]} else s) acc cells
  ↔ i ∈ acc ∨ ∃ c, c ∈ cells ∧ index c = i ∧ ruleFn level c = true.
Proof.
  revert acc. induction cells as [|c cells IH]; intros acc; simpl.
  - split; [auto|]. intros [?|(c & Hc & _)]; [done|]. by apply elem_of_nil in Hc.
  - rewrite IH. destruct (ruleFn level c) eqn:Hrule.
    + rewrite elem_of_union, elem_of_singleton. split.
      * intros [[? | ->] | (c' & Hc' & ? & ?)]; [by left| |].
        -- right. exists c. split; [apply list_elem_of_here|done].
        -- right. exists c'. split; [by apply list_elem_of_further|done].
      * intros [?|(c' & Hc' & Hi & Hr)]; [by left; left|].
        apply elem_of_cons in Hc' as [-> | Hc'].
        -- left. right. done.
        -- right. by exists c'.
    + split.
      * intros [?|(c' & Hc' & ? & ?)]; [by left|].
        right. exists c'. split; [by apply list_elem_of_further|done].
      * intros [?|(c' & Hc' & Hi & Hr)]; [by left|].
        apply elem_of_cons in Hc' as [-> | Hc']; [congruence|].
        right. by exists c'.
Qed.

Lemma elem_of_targetSetOf (level : Level) (cells : list Cell) (i : Z) :
  i ∈ targetSetOf cells level
  ↔ ∃ c, c ∈ cells ∧ index c = i ∧ ruleFn level c = true.
Proof.
  unfold targetSetOf. rewrite elem_of_targetSetOf_acc.
  split; [intros [H|H]; [by apply not_elem_of_empty in H|done]|by right].
Qed.

(** On the cells of the grid, membership is the rule at that index. *)
Lemma elem_of_targetSetOf_grid (level : Level) (i : Z) :
  i ∈ targetSetOf buildCells level
  ↔ inGrid i ∧ ruleFn level (cellAt GRID_SIZE i) = true.
Proof.
  rewrite elem_of_targetSetOf. unfold buildCells, inGrid. split.
  - intros (c & Hc & <- & Hr).
    apply elem_of_buildCellsOf in Hc as (j & Hj & ->). done.
  - intros [Hi Hr]. exists (cellAt GRID_SIZE i).
    split; [|done]. apply elem_of_buildCellsOf. by exists i.
Qed.

End TargetFacts.

(** ** C4: the grid builder *)

(** C4. For a grid side length [n > 0] the builder produces exactly
    [n * n] cells in row-major order: the cell at sequence position [i]
    has index [i], row [i / n] (floor) and column [i mod n]; the indices
    are pairwise distinct and are exactly [0 .. n * n - 1]. The
    component's grid is the builder at side length 5, with 25 cells. *)
Theorem buildCells_row_major (n : Z) :
  0 < n →
  length (buildCellsOf n) = Z.to_nat (n * n)
  ∧ (∀ i, 0 <= i < n * n →
       buildCellsOf n !! Z.to_nat i = Some (mkCell i (i / n) (i mod n)))
  ∧ NoDup (index <$> buildCellsOf n)
  ∧ (∀ j, j ∈ index <$> buildCellsOf n ↔ 0 <= j < n * n)
  ∧ buildCells = buildCellsOf 5
  ∧ length buildCells = 25%nat.
Proof.
  intros Hn. split; [|split; [|split; [|split; [|split]]]].
  - rewrite buildCellsOf_seqZ, length_fmap. apply length_seqZ.
  - intros i Hi. rewrite buildCellsOf_seqZ, list_lookup_fmap.
    rewrite (lookup_seqZ_lt 0 (n * n) (Z.to_nat i)) by lia.
    simpl. unfold cellAt. rewrite Z2Nat.id by lia.
    by rewrite Z.rem_mod_nonneg by lia.
  - rewrite buildCellsOf_indices. apply NoDup_seqZ.
  - intros j. rewrite buildCellsOf_indices, elem_of_seqZ. lia.
  - reflexivity.
  - by vm_compute.
Qed.

Lemma buildCells_row_major_witness :
  buildCellsOf 5 !! 7%nat = Some (mkCell 7 1 2)
  ∧ NoDup (index <$> buildCellsOf 5).
Proof.
  destruct (buildCells_row_major 5 ltac:(lia)) as (_ & Hat & Hnd & _).
  split; [|exact Hnd]. apply (Hat 7). lia.
Defined.

(** ** C5: the five rules *)

Section RuleFacts.

Lemma ruleFn_canonical (k : nat) (level : Level) (i : Z) :
  LEVELS !! k = Some level → inGrid i →
  ruleFn level (cellAt GRID_SIZE i) = true ↔ canonicalRule k i.
Proof.
  unfold inGrid, GRID_SIZE. intros Hk Hi.
  destruct k as [|[|[|[|[|k]]]]]; [| | | | |done];
    injection Hk as <-; simpl.
  - unfold evenRule. rewrite bool_decide_eq_true. simpl.
    by rewrite Z.rem_mod_nonneg by lia.
  - unfold diagonalRule. rewrite orb_true_iff, !bool_decide_eq_true.
    simpl. rewrite Z.rem_mod_nonneg by lia. unfold GRID_SIZE. lia.
  - unfold primeRule. simpl. apply isPrime_prime.
  - unfold centerRule, GRID_SIZE.
    rewrite orb_true_iff, andb_true_iff, !bool_decide_eq_true. simpl.
    rewrite Z.rem_mod_nonneg by lia.
    change (5 * 5 / 2 / 5) with 2. change (Z.rem (5 * 5 / 2) 5) with 2.
    change (12 / 5) with 2. change (12 mod 5) with 2. lia.
  - unfold modSumRule. rewrite bool_decide_eq_true. simpl.
    rewrite (Z.rem_mod_nonneg i 5) by lia.
    rewrite Z.rem_mod_nonneg; [done| |lia].
    pose proof (Z.div_pos i 5). pose proof (Z.mod_pos_bound i 5). lia.
Qed.

End RuleFacts.

(** C5. For each of the five catalog levels, on the 5x5 grid, an index
    is in the computed target set exactly when it is a grid index and
    satisfies the level's canonical rule (even index; on a diagonal;
    prime; within Manhattan distance 1 of the centre cell 12;
    [(row + col) mod 3 = 0]). The primality test answers [false] below 2
    and agrees with primality everywhere, and the five target sets are
    the enumerated ones. *)
Theorem targetSet_canonical :
  length LEVELS = 5%nat
  ∧ (∀ k level i, LEVELS !! k = Some level →
       i ∈ targetSetOf buildCells level ↔ inGrid i ∧ canonicalRule k i)
  ∧ (∀ n, isPrime n = true ↔ Z.prime n)
  ∧ (∀ n, n < 2 → isPrime n = false)
  ∧ targetSetOf buildCells <$> LEVELS =
      [ list_to_set [0; 2; 4; 6; 8; 10; 12; 14; 16; 18; 20; 22; 24];
        list_to_set [0; 4; 6; 8; 12; 16; 18; 20; 24];
        list_to_set [2; 3; 5; 7; 11; 13; 17; 19; 23];
        list_to_set [7; 11; 12; 13; 17];
        list_to_set [0; 3; 7; 11; 14; 15; 18; 22] ].
Proof.
  split; [done|]. split; [|split; [|split]].
  - intros k level i Hk. rewrite elem_of_targetSetOf_grid.
    split; intros [Hi Hr]; (split; [done|]);
      by apply (ruleFn_canonical k level i Hk Hi).
  - apply isPrime_prime.
  - apply isPrime_below_2.
  - by vm_compute.
Qed.

Lemma targetSet_canonical_witness :
  13 ∈ targetSetOf buildCells (mkLevel 3 primeRule)
  ↔ inGrid 13 ∧ canonicalRule 2 13.
Proof.
  apply (proj1 (proj2 targetSet_canonical) 2%nat (mkLevel 3 primeRule) 13).
  reflexivity.
Defined.

(** ** Submission *)

Section SubmitFacts.

Implicit Types (targets sel : gset Z) (s : State).

(** The first loop of [submit] splits what it visits along [targets]. *)
Lemma foldl_classify targets (l : list Z) (acc : gset Z * gset Z) :
  foldl (classify targets) acc l
  = (acc.1 ∪ (list_to_set l ∩ targets), acc.2 ∪ (list_to_set l ∖ targets)).
Proof.
  revert acc. induction l as [|x l IH]; intros [a b]; simpl.
  - f_equal; set_solver.
  - rewrite IH. unfold classify.
    destruct (decide (x ∈ targets)); simpl; f_equal; set_solver.
Qed.

(** The second loop collects the targets that were not selected. *)
Lemma foldl_collectMissed sel (l : list Z) (missed : gset Z) :
  foldl (collectMissed sel) missed l = missed ∪ (list_to_set l ∖ sel).
Proof.
  revert missed. induction l as [|x l IH]; intros missed; simpl.
  - set_solver.
  - rewrite IH. unfold collectMissed.
    destruct (decide (x ∈ sel)); set_solver.
Qed.

(** [submit] outside the flashing period, in closed form. *)
Lemma submit_closed_form targets s :
  isFlashing s = false →
  submit targets s
  = setResults (λ _, Some (roundResults (selected s) targets))
      (setScore (λ sc, sc + roundDelta (selected s) targets) s).
Proof.
  intros Hf. unfold submit. rewrite Hf.
  rewrite foldl_classify, foldl_collectMissed. simpl.
  rewrite !list_to_set_elements_L.
  rewrite list_to_set_app_L, !list_to_set_elements_L.
  rewrite !(left_id_L ∅ (∪)).
  reflexivity.
Qed.

Lemma submit_flashing targets s :
  isFlashing s = true → submit targets s = s.
Proof. intros Hf. unfold submit. by rewrite Hf. Qed.

Lemma roundDelta_nonneg sel targets : 0 <= roundDelta sel targets.
Proof. unfold roundDelta. lia. Qed.

Lemma submit_score_mono targets s : score s <= score (submit targets s).
Proof.
  destruct (isFlashing s) eqn:Hf.
  - by rewrite submit_flashing.
  - rewrite submit_closed_form by done. simpl.
    pose proof (roundDelta_nonneg (selected s) targets). lia.
Qed.

End SubmitFacts.

(** C2. Outside the flashing period [submit] adds to the score exactly
    [max 0 (|selection ∩ targets| - |selection \ targets|)]. Targets that
    were not selected do not enter the sum: enlarging the target set by
    cells outside the selection leaves the new score unchanged. A
    non-empty selection disjoint from the target set gives an empty
    correct set and adds 0. *)
Theorem submit_score_delta (targets : gset Z) (s : State) :
  isFlashing s = false →
  score (submit targets s)
  = score s + Z.max 0 (Z.of_nat (size (selected s ∩ targets))
                       - Z.of_nat (size (selected s ∖ targets)))
  ∧ (∀ missed : gset Z, missed ## selected s →
       score (submit (targets ∪ missed) s) = score (submit targets s))
  ∧ (selected s ≠ ∅ → selected s ## targets →
       correct <$> results (submit targets s) = Some ∅
       ∧ score (submit targets s) = score s).
Proof.
  intros Hf. split; [|split].
  - by rewrite submit_closed_form.
  - intros missed Hm. rewrite !submit_closed_form by done. simpl.
    unfold roundDelta.
    replace (selected s ∩ (targets ∪ missed)) with (selected s ∩ targets)
      by set_solver.
    replace (selected s ∖ (targets ∪ missed)) with (selected s ∖ targets)
      by set_solver.
    reflexivity.
  - intros _ Hd. rewrite submit_closed_form by done. simpl.
    unfold roundDelta.
    replace (selected s ∩ targets) with (∅ : gset Z) by set_solver.
    split; [done|]. rewrite size_empty. lia.
Qed.

Lemma submit_score_delta_witness :
  score (submit (list_to_set [0; 2; 4])
           (mkState 0 false false (list_to_set [0; 1; 2; 3; 5]) None 7
                    false 0 0))
  = 7 + Z.max 0 (2 - 3).
Proof.
  exact (proj1 (submit_score_delta (list_to_set [0; 2; 4])
                  (mkState 0 false false (list_to_set [0; 1; 2; 3; 5]) None 7
                           false 0 0) eq_refl)).
Defined.

(** C3. When the selection equals the target set, the result's correct
    set has as many elements as the target set, its incorrect set is
    empty, and the score grows by the size of the target set. *)
Theorem submit_perfect (targets : gset Z) (s : State) :
  isFlashing s = false →
  selected s = targets →
  ∃ r, results (submit targets s) = Some r
       ∧ size (correct r) = size targets
       ∧ incorrect r = ∅
       ∧ score (submit targets s) = score s + Z.of_nat (size targets).
Proof.
  intros Hf Hsel. rewrite submit_closed_form by done. rewrite Hsel.
  exists (roundResults targets targets). simpl. unfold roundDelta.
  replace (targets ∩ targets) with targets by set_solver.
  replace (targets ∖ targets) with (∅ : gset Z) by set_solver.
  split; [done|]. split; [done|]. split; [set_solver|].
  rewrite size_empty. lia.
Qed.

Lemma submit_perfect_witness :
  ∃ r, results (submit (list_to_set [7; 11; 12; 13; 17])
                  (mkState 3 false false (list_to_set [7; 11; 12; 13; 17])
                           None 4 false 0 0)) = Some r
       ∧ size (correct r) = size (list_to_set [7; 11; 12; 13; 17] : gset Z)
       ∧ incorrect r = ∅
       ∧ score (submit (list_to_set [7; 11; 12; 13; 17])
                  (mkState 3 false false (list_to_set [7; 11; 12; 13; 17])
                           None 4 false 0 0))
         = 4 + Z.of_nat (size (list_to_set [7; 11; 12; 13; 17] : gset Z)).
Proof.
  apply (submit_perfect (list_to_set [7; 11; 12; 13; 17])
           (mkState 3 false false (list_to_set [7; 11; 12; 13; 17])
                    None 4 false 0 0)); reflexivity.
Defined.

(** C10. Whenever [submit] produces a result, its correct and incorrect
    sets are disjoint and together make up the selection plus the target
    set. *)
Theorem submit_result_partition (targets : gset Z) (s : State) :
  isFlashing s = false →
  ∃ r, results (submit targets s) = Some r
       ∧ correct r ## incorrect r
       ∧ correct r ∪ incorrect r = selected s ∪ targets.
Proof.
  intros Hf. rewrite submit_closed_form by done.
  exists (roundResults (selected s) targets). simpl.
  split; [done|]. split; [set_solver|].
  apply set_eq. intros x.
  rewrite !elem_of_union, elem_of_intersection, !elem_of_difference.
  destruct (decide (x ∈ selected s)), (decide (x ∈ targets)); tauto.
Qed.

Lemma submit_result_partition_witness :
  ∃ r, results (submit (list_to_set [0; 2; 4])
                  (mkState 0 false false (list_to_set [1; 2]) None 0
                           false 0 0)) = Some r
       ∧ correct r ## incorrect r
       ∧ correct r ∪ incorrect r = list_to_set [1; 2] ∪ list_to_set [0; 2; 4].
Proof.
  exact (submit_result_partition (list_to_set [0; 2; 4])
           (mkState 0 false false (list_to_set [1; 2]) None 0 false 0 0)
           eq_refl).
Defined.

(** ** The mounted component *)

Section EngineFacts.

Implicit Types (s : State) (e : Event) (targets : gset Z).

Lemma targetSet_valid s : validLevel s → is_Some (targetSet s).
Proof.
  unfold validLevel, targetSet, currentLevel. intros Hv.
  rewrite decide_True by lia. apply fmap_is_Some, lookup_lt_is_Some. lia.
Qed.

(** A render followed by one event, unfolded. *)
Lemma dispatch_Some s e s' :
  dispatch s e = Some s' ↔
  ∃ targets, targetSet s = Some targets
             ∧ s' = (if live s e then runEffect s (handle targets e s)
                     else s).
Proof.
  unfold dispatch. destruct (targetSet s) as [targets|]; simpl.
  - split.
    + intros [= <-]. by exists targets.
    + intros (t & [= <-] & ->). done.
  - split; [done|]. by intros (t & ? & _).
Qed.

Lemma dispatch_valid s e : validLevel s → is_Some (dispatch s e).
Proof.
  intros Hv. destruct (targetSet_valid s Hv) as [targets Ht].
  unfold dispatch. rewrite Ht. simpl. eauto.
Qed.

Lemma dispatch_dead s e :
  validLevel s → live s e = false → dispatch s e = Some s.
Proof.
  intros Hv Hl. destruct (targetSet_valid s Hv) as [targets Ht].
  unfold dispatch. rewrite Ht. simpl. by rewrite Hl.
Qed.

(** The effect leaves the level, the round counter and the score as
    the handler set them. *)
Lemma runEffect_levelIndex s s' :
  levelIndex (runEffect s s') = levelIndex s'.
Proof. unfold runEffect. by case_decide. Qed.

Lemma runEffect_round s s' : round (runEffect s s') = round s'.
Proof. unfold runEffect. by case_decide. Qed.

Lemma runEffect_score s s' : score (runEffect s s') = score s'.
Proof. unfold runEffect. by case_decide. Qed.

Lemma runEffect_results s s' :
  results (runEffect s s') = results s'
  ∨ (results (runEffect s s') = None ∧ isFlashing (runEffect s s') = true).
Proof. unfold runEffect. case_decide; [by left|by right]. Qed.

Lemma handle_score targets e s :
  score s <= score (handle targets e s)
  ∧ (e ≠ ClickSubmit → score (handle targets e s) = score s).
Proof.
  destruct e; simpl; try (split; [reflexivity|done]).
  - unfold toggleSelect.
    destruct (isFlashing s), (results s); split; reflexivity || done.
  - split; [apply submit_score_mono|done].
Qed.

Lemma handle_levelIndex targets e s :
  live s e = true → validLevel s → validLevel (handle targets e s).
Proof.
  unfold validLevel. intros Hl Hv.
  destruct e; cbn [handle]; try exact Hv.
  - unfold toggleSelect. destruct (isFlashing s), (results s); exact Hv.
  - unfold submit. destruct (isFlashing s); [exact Hv|].
    destruct (foldl _ _ _). exact Hv.
  - unfold nextLevel. cbn [setLevelIndex levelIndex]. lia.
  - unfold prevLevel. cbn [setLevelIndex levelIndex]. lia.
  - cbn [live] in Hl. by apply bool_decide_eq_true in Hl.
Qed.

Lemma dispatch_preserves_valid s e s' :
  validLevel s → dispatch s e = Some s' → validLevel s'.
Proof.
  intros Hv (targets & _ & ->)%dispatch_Some.
  destruct (live s e) eqn:Hl; [|done].
  unfold validLevel. rewrite runEffect_levelIndex.
  by apply handle_levelIndex.
Qed.

Lemma reachable_valid s : reachable s → validLevel s.
Proof.
  induction 1 as [|s e s' _ IH Hd].
  - by vm_compute.
  - by eapply dispatch_preserves_valid.
Qed.

Lemma dispatch_score s e s' :
  dispatch s e = Some s' →
  score s <= score s' ∧ (e ≠ ClickSubmit → score s' = score s).
Proof.
  intros (targets & _ & ->)%dispatch_Some.
  destruct (live s e); [|by split].
  rewrite runEffect_score. apply handle_score.
Qed.

Lemma reachable_score_nonneg s : reachable s → 0 <= score s.
Proof.
  induction 1 as [|s e s' _ IH Hd]; [done|].
  apply dispatch_score in Hd as [Hle _]. lia.
Qed.

Lemma phase_Selecting s :
  phase s = Selecting ↔ isFlashing s = false ∧ results s = None.
Proof.
  unfold phase. destruct (isFlashing s), (results s); split;
    (done || by intros [? ?]).
Qed.

Lemma live_submit s : live s ClickSubmit = true ↔ phase s = Selecting.
Proof.
  rewrite phase_Selecting. simpl.
  destruct (isFlashing s), (results s) as [r|]; simpl; split;
    (done || by intros [? ?]).
Qed.

(** On mount the effect finds the initial values already in place. *)
Lemma startRound_initial : startRound initialState = initialState.
Proof. reflexivity. Qed.

End EngineFacts.

(** ** C1: when submission takes effect *)

(** C1, as stated, fails on the handler: in the state reached from the
    initial one by letting the flashing period end, selecting cell 0 and
    submitting (score 1, result set), running the handler [submit] once
    more raises the score to 2. *)
Lemma submit_rescores_once_resulted :
  run initialState [FlashTimeout; ClickCell 0; ClickSubmit]
  = Some resultedState
  ∧ targetSet resultedState = Some evenTargets
  ∧ is_Some (results resultedState)
  ∧ score resultedState = 1
  ∧ score (submit evenTargets resultedState) = 2
  ∧ ¬ (∀ (targets : gset Z) (s : State),
         phase s = Memorizing ∨ is_Some (results s) →
         score (submit targets s) = score s
         ∧ selected (submit targets s) = selected s
         ∧ results (submit targets s) = results s).
Proof.
  assert (score (submit evenTargets resultedState) = 2) as Hscore
    by (by vm_compute).
  split; [by vm_compute|]. split; [by vm_compute|]. split; [by eexists|].
  split; [done|]. split; [exact Hscore|].
  intros Hclaim.
  destruct (Hclaim evenTargets resultedState) as [Hsame _].
  - right. by eexists.
  - rewrite Hscore in Hsame. discriminate Hsame.
Qed.

(** C1, amended. The handler [submit] is a no-op while the cells flash
    (Memorizing). It does not itself look at an existing result; that
    case is kept out by the Submit button, which is disabled whenever
    the phase is not Selecting, so a click on it then leaves the whole
    state (score, selection and result included) unchanged. Once a
    result is set, no event replaces it by another: it stays, or a new
    round clears it. *)
Theorem submit_gated (s : State) :
  validLevel s →
  phase s ≠ Selecting →
  (isFlashing s = true → ∀ targets, submit targets s = s)
  ∧ live s ClickSubmit = false
  ∧ dispatch s ClickSubmit = Some s
  ∧ (∀ r e s', results s = Some r → dispatch s e = Some s' →
       results s' = Some r ∨ (results s' = None ∧ phase s' = Memorizing)).
Proof.
  intros Hv Hph.
  assert (live s ClickSubmit = false) as Hdead.
  { destruct (live s ClickSubmit) eqn:Hl; [|done].
    by apply live_submit in Hl. }
  split; [|split; [|split]].
  - intros Hf targets. by apply submit_flashing.
  - exact Hdead.
  - by apply dispatch_dead.
  - intros r e s' Hr (targets & _ & ->)%dispatch_Some.
    destruct (live s e) eqn:Hl; [|by left].
    assert (results (handle targets e s) = Some r) as Hh.
    { destruct e; cbn [handle]; try exact Hr.
      - unfold toggleSelect. rewrite Hr. by destruct (isFlashing s).
      - congruence. }
    destruct (runEffect_results s (handle targets e s)) as [->|[Hn Hf]].
    + by left.
    + right. split; [done|]. unfold phase. by rewrite Hf.
Qed.

Lemma submit_gated_witness :
  dispatch resultedState ClickSubmit = Some resultedState.
Proof.
  refine (proj1 (proj2 (proj2 (submit_gated resultedState _ _)))).
  - by vm_compute.
  - by vm_compute.
Defined.

(** ** C6: toggling a cell *)

(** C6. In the Selecting phase [toggleSelect idx] flips the membership
    of [idx] in the selection and touches no other index, so two
    invocations with the same index give back the state they started
    from; in any other phase (flashing, or a result set) it leaves the
    state as it is. *)
Theorem toggleSelect_flips (idx : Z) (s : State) :
  (phase s = Selecting →
     (idx ∈ selected (toggleSelect idx s) ↔ idx ∉ selected s)
     ∧ (∀ j, j ≠ idx →
          j ∈ selected (toggleSelect idx s) ↔ j ∈ selected s)
     ∧ phase (toggleSelect idx s) = Selecting
     ∧ toggleSelect idx (toggleSelect idx s) = s)
  ∧ (phase s ≠ Selecting → toggleSelect idx s = s).
Proof.
  split.
  - intros [Hf Hr]%phase_Selecting.
    destruct s as [lv fl fo sel res sc hint tl rd]. simpl in Hf, Hr.
    subst fl res. unfold toggleSelect. cbn [isFlashing results].
    unfold setSelected.
    cbn [levelIndex isFlashing flashOn selected results score hintShown
         timeLeft round].
    destruct (decide (idx ∈ sel)) as [Hin|Hout].
    + rewrite decide_False by set_solver.
      split; [set_solver|]. split; [set_solver|]. split; [done|].
      f_equal.
      apply set_eq. intros x. destruct (decide (x = idx)); set_solver.
    + rewrite decide_True by set_solver.
      split; [set_solver|]. split; [set_solver|]. split; [done|].
      f_equal. set_solver.
  - intros Hph. unfold toggleSelect, phase in *.
    destruct (isFlashing s); [done|]. by destruct (results s).
Qed.

Lemma toggleSelect_flips_witness :
  toggleSelect 3 (toggleSelect 3
    (mkState 1 false false (list_to_set [3; 4]) None 0 false 0 0))
  = mkState 1 false false (list_to_set [3; 4]) None 0 false 0 0.
Proof.
  refine (proj2 (proj2 (proj2 (proj1 (toggleSelect_flips 3
    (mkState 1 false false (list_to_set [3; 4]) None 0 false 0 0)) _)))).
  reflexivity.
Defined.

(** ** C7: the score *)

(** C7. The score starts at 0 and is never negative in a reachable
    state; every handler, and every event of the mounted component,
    leaves it at least as large as before, and only submission changes
    it. Every event is handled in every reachable state. *)
Theorem score_never_decreases :
  score initialState = 0
  ∧ (∀ s, reachable s → 0 <= score s)
  ∧ (∀ targets e s,
       score s <= score (handle targets e s)
       ∧ (e ≠ ClickSubmit → score (handle targets e s) = score s))
  ∧ (∀ s e, reachable s →
       ∃ s', dispatch s e = Some s'
             ∧ score s <= score s'
             ∧ (e ≠ ClickSubmit → score s' = score s)).
Proof.
  split; [done|]. split; [apply reachable_score_nonneg|].
  split; [apply handle_score|].
  intros s e Hr.
  destruct (dispatch_valid s e (reachable_valid s Hr)) as [s' Hd].
  exists s'. split; [done|]. by apply dispatch_score.
Qed.

Lemma score_never_decreases_witness :
  ∃ s', dispatch initialState ClickRestart = Some s'
        ∧ score initialState <= score s'
        ∧ (ClickRestart ≠ ClickSubmit → score s' = score initialState).
Proof.
  apply (proj2 (proj2 (proj2 score_never_decreases))).
  apply reachable_init.
Defined.

(** ** C8: level navigation *)

(** C8. For a level index [i] within the catalog (0..4), [nextLevel]
    yields [min 4 (i + 1)] and [prevLevel] yields [max 0 (i - 1)], as
    handlers and as clicks on the Next and Prev buttons; no event takes
    the level index out of the catalog, so it is within 0..4 in every
    reachable state. *)
Theorem navigation_clamps :
  (∀ s, validLevel s →
     levelIndex (nextLevel s) = Z.min 4 (levelIndex s + 1)
     ∧ levelIndex (prevLevel s) = Z.max 0 (levelIndex s - 1)
     ∧ (∃ s', dispatch s ClickNext = Some s'
              ∧ levelIndex s' = Z.min 4 (levelIndex s + 1))
     ∧ (∃ s', dispatch s ClickPrev = Some s'
              ∧ levelIndex s' = Z.max 0 (levelIndex s - 1)))
  ∧ (∀ s e s', validLevel s → dispatch s e = Some s' → validLevel s')
  ∧ (∀ s, reachable s → 0 <= levelIndex s <= 4).
Proof.
  split; [|split].
  - intros s Hv. pose proof Hv as Hv'. unfold validLevel in Hv'.
    change (Z.of_nat (length LEVELS)) with 5 in Hv'.
    split; [done|]. split; [done|].
    destruct (targetSet_valid s Hv) as [targets Ht].
    unfold dispatch. rewrite Ht. cbn [mbind option_bind live].
    change (Z.of_nat (length LEVELS) - 1) with 4.
    split; eexists; (split; [reflexivity|]); case_bool_decide; cbn [negb];
      rewrite ?runEffect_levelIndex; cbn [handle];
      unfold nextLevel, prevLevel; cbn [setLevelIndex levelIndex];
      change (Z.of_nat (length LEVELS) - 1) with 4; lia.
  - apply dispatch_preserves_valid.
  - intros s Hr%reachable_valid. unfold validLevel in Hr.
    change (Z.of_nat (length LEVELS)) with 5 in Hr. lia.
Qed.

Lemma navigation_clamps_witness :
  levelIndex (nextLevel (mkState 4 false false ∅ None 0 false 0 0))
  = Z.min 4 (4 + 1)
  ∧ levelIndex (prevLevel (mkState 4 false false ∅ None 0 false 0 0))
    = Z.max 0 (4 - 1).
Proof.
  destruct (proj1 navigation_clamps
              (mkState 4 false false ∅ None 0 false 0 0))
    as (Hn & Hp & _).
  - by vm_compute.
  - exact (conj Hn Hp).
Defined.

(** ** C9: restarting a round *)

(** C9. A click on Restart, in any phase, leaves a fresh Memorizing
    round: the cells flash and are lit, the selection is empty, there is
    no result, and the countdown is back at the full
    [ceil (10000 / 1000) = 10] seconds with its timer installed. The
    level index is the one before: the handler only advances the round
    counter, and that change alone makes the effect run again. *)
Theorem reset_starts_fresh_round (s : State) :
  validLevel s →
  ∃ s', dispatch s ClickRestart = Some s'
        ∧ phase s' = Memorizing
        ∧ flashOn s' = true
        ∧ selected s' = ∅
        ∧ results s' = None
        ∧ timeLeft s' = 10
        ∧ live s' CountdownTick = true
        ∧ levelIndex s' = levelIndex s
        ∧ levelIndex (resetLevel s) = levelIndex s
        ∧ round s' = round s + 1
        ∧ score s' = score s.
Proof.
  intros Hv. destruct (targetSet_valid s Hv) as [targets Ht].
  exists (startRound (resetLevel s)). split.
  - unfold dispatch. rewrite Ht. cbn [mbind option_bind live handle].
    unfold runEffect. rewrite decide_False; [done|].
    unfold resetLevel. cbn [setRound round]. lia.
  - by repeat split.
Qed.

Lemma reset_starts_fresh_round_witness :
  ∃ s', dispatch resultedState ClickRestart = Some s'
        ∧ phase s' = Memorizing
        ∧ flashOn s' = true
        ∧ selected s' = ∅
        ∧ results s' = None
        ∧ timeLeft s' = 10
        ∧ live s' CountdownTick = true
        ∧ levelIndex s' = levelIndex resultedState
        ∧ levelIndex (resetLevel resultedState) = levelIndex resultedState
        ∧ round s' = round resultedState + 1
        ∧ score s' = score resultedState.
Proof.
  apply (reset_starts_fresh_round resultedState). by vm_compute.
Defined.

(** * Further properties of the component *)

(** ** Invariants of the reachable states *)

Section Invariants.

Implicit Types (s : State) (e : Event) (targets : gset Z).

(** Induction over the events of the mounted component. *)
Lemma reachable_invariant (P : State → Prop) :
  P initialState →
  (∀ s targets e,
     reachable s → P s → targetSet s = Some targets → live s e = true →
     P (runEffect s (handle targets e s))) →
  ∀ s, reachable s → P s.
Proof.
  intros Hinit Hstep s. induction 1 as [|s e s' Hr IH Hd]; [done|].
  apply dispatch_Some in Hd as (targets & Ht & ->).
  destruct (live s e) eqn:Hl; [|done]. by eapply Hstep.
Qed.

(** What a handler does to the flags and sets the invariants speak of. *)
Lemma handle_isFlashing targets e s :
  isFlashing (handle targets e s)
  = match e with FlashTimeout => false | _ => isFlashing s end.
Proof.
  destruct e; cbn [handle]; try reflexivity.
  - unfold toggleSelect.
    destruct (isFlashing s) eqn:Hf; [done|]. by destruct (results s).
  - unfold submit. destruct (isFlashing s) eqn:Hf; [done|].
    by destruct (foldl _ _ _).
Qed.

Lemma handle_selected targets e s :
  selected (handle targets e s)
  = match e with
    | ClickCell idx => selected (toggleSelect idx s)
    | _ => selected s
    end.
Proof.
  destruct e; cbn [handle]; try reflexivity.
  unfold submit. destruct (isFlashing s); [done|]. by destruct (foldl _ _ _).
Qed.

Lemma handle_results targets e s :
  results (handle targets e s)
  = match e with
    | ClickSubmit => results (submit targets s)
    | _ => results s
    end.
Proof.
  destruct e; cbn [handle]; try reflexivity.
  unfold toggleSelect.
  destruct (isFlashing s); [done|]. by destruct (results s) eqn:Hr.
Qed.

Lemma handle_timeLeft targets e s :
  timeLeft (handle targets e s)
  = match e with
    | CountdownTick => if decide (timeLeft s > 0) then timeLeft s - 1 else 0
    | _ => timeLeft s
    end.
Proof.
  destruct e; cbn [handle]; try reflexivity.
  - unfold toggleSelect.
    destruct (isFlashing s); [done|]. by destruct (results s).
  - unfold submit. destruct (isFlashing s); [done|]. by destruct (foldl _ _ _).
Qed.

Lemma toggleSelect_selected_subseteq idx s :
  selected (toggleSelect idx s) ⊆ selected s ∪ {[idx]}.
Proof.
  unfold toggleSelect. destruct (isFlashing s); [set_solver|].
  destruct (results s); [set_solver|]. cbn [setSelected selected].
  case_decide; set_solver.
Qed.

Lemma targetSet_levelIndex s s' :
  levelIndex s' = levelIndex s → targetSet s' = targetSet s.
Proof. unfold targetSet, currentLevel. by intros ->. Qed.

Lemma live_cell_inGrid s idx : live s (ClickCell idx) = true → inGrid idx.
Proof.
  cbn [live]. intros Hl%bool_decide_eq_true.
  unfold buildCells in Hl. rewrite buildCellsOf_indices in Hl.
  apply elem_of_seqZ in Hl. unfold inGrid, GRID_SIZE in *. lia.
Qed.

(** While the cells flash there is neither a selection nor a result. *)
Lemma reachable_flashing_clean s :
  reachable s → isFlashing s = true → results s = None ∧ selected s = ∅.
Proof.
  revert s.
  apply (reachable_invariant
           (λ s, isFlashing s = true → results s = None ∧ selected s = ∅));
    [done|].
  intros s targets e _ IH _ _. unfold runEffect. case_decide; [|done].
  rewrite handle_isFlashing, handle_results, handle_selected.
  destruct e; try exact IH; try done.
  - intros Hf. unfold toggleSelect. rewrite Hf. by apply IH.
  - intros Hf. rewrite submit_flashing by done. by apply IH.
Qed.

(** Running a list of events stays within the reachable states. *)
Lemma reachable_run s (es : list Event) s' :
  reachable s → run s es = Some s' → reachable s'.
Proof.
  revert s. induction es as [|e es IH]; intros s Hr; cbn [run].
  - by intros [= <-].
  - destruct (dispatch s e) as [s1|] eqn:Hd; [|done]. cbn.
    apply IH. by eapply reachable_step.
Qed.

Lemma resultedState_reachable : reachable resultedState.
Proof.
  apply (reachable_run initialState
           [FlashTimeout; ClickCell 0; ClickSubmit]); [constructor|].
  by vm_compute.
Qed.

End Invariants.

(** The selection only ever holds indices of grid cells: the cells that
    can be clicked are the rendered ones. *)
Theorem selection_within_grid (s : State) :
  reachable s → ∀ i, i ∈ selected s → 0 <= i < 25.
Proof.
  revert s.
  apply (reachable_invariant (λ s, ∀ i, i ∈ selected s → 0 <= i < 25)).
  - intros i Hi. by apply not_elem_of_empty in Hi.
  - intros s targets e _ IH _ Hl i. unfold runEffect.
    case_decide; [|intros Hi; by apply not_elem_of_empty in Hi].
    rewrite handle_selected. destruct e; try apply IH.
    intros Hi. apply toggleSelect_selected_subseteq in Hi.
    apply elem_of_union in Hi as [Hi|Hi%elem_of_singleton]; [by apply IH|].
    subst i. apply live_cell_inGrid in Hl. exact Hl.
Qed.

Lemma selection_within_grid_witness :
  0 ∈ selected resultedState ∧ 0 <= 0 < 25.
Proof.
  assert (0 ∈ selected resultedState) as Hin
    by (unfold resultedState; cbn [selected]; by apply elem_of_singleton).
  split; [exact Hin|].
  exact (selection_within_grid resultedState resultedState_reachable 0 Hin).
Defined.

(** The three phases exclude one another in every reachable state:
    while the cells flash there is no result and the selection is empty,
    so a result or a non-empty selection implies the flashing is over. *)
Theorem flashing_round_is_clean (s : State) :
  reachable s →
  isFlashing s = true →
  results s = None ∧ selected s = ∅ ∧ phase s = Memorizing.
Proof.
  intros Hr Hf. destruct (reachable_flashing_clean s Hr Hf) as [Hres Hsel].
  split; [done|]. split; [done|]. unfold phase. by rewrite Hf.
Qed.

Lemma flashing_round_is_clean_witness :
  results initialState = None ∧ selected initialState = ∅
  ∧ phase initialState = Memorizing.
Proof.
  exact (flashing_round_is_clean initialState reachable_init eq_refl).
Defined.

(** The result of a reachable state is the partition of its selection
    along the target set of its level. *)
Lemma reachable_result_partition (s : State) (r : Results) :
  reachable s →
  results s = Some r →
  ∃ targets, targetSet s = Some targets
             ∧ correct r = selected s ∩ targets
             ∧ incorrect r = (selected s ∖ targets) ∪ (targets ∖ selected s)
             ∧ isFlashing s = false.
Proof.
  intros Hr. revert r. revert s Hr.
  apply (reachable_invariant
           (λ s, ∀ r, results s = Some r →
              ∃ targets, targetSet s = Some targets
                ∧ correct r = selected s ∩ targets
                ∧ incorrect r
                  = (selected s ∖ targets) ∪ (targets ∖ selected s)
                ∧ isFlashing s = false)); [done|].
  intros s targets e Hr IH Ht Hl r. unfold runEffect.
  case_decide as Hdeps; [|done]. destruct Hdeps as [Hlv _].
  rewrite (targetSet_levelIndex s _ Hlv).
  rewrite handle_results, handle_selected, handle_isFlashing.
  destruct e;
    try (clear Hl; intros Hres;
         destruct (IH r Hres) as (T & ? & ? & ? & ?); by exists T).
  - clear Hl. intros Hres. destruct (IH r Hres) as (T & ? & ? & ? & ?).
    exists T. unfold toggleSelect. rewrite Hres.
    by destruct (isFlashing s).
  - cbn [live] in Hl. apply negb_true_iff, orb_false_iff in Hl as [Hf _].
    rewrite submit_closed_form by done. cbn [setResults results].
    intros [= <-]. by exists targets.
Qed.

(** A displayed result always belongs to the current selection and the
    current level: its correct set is the selected targets, its incorrect
    set the wrongly selected cells together with the missed targets. *)
Theorem result_matches_selection (s : State) (r : Results) :
  reachable s →
  results s = Some r →
  ∃ targets, targetSet s = Some targets
             ∧ correct r = selected s ∩ targets
             ∧ incorrect r = (selected s ∖ targets) ∪ (targets ∖ selected s)
             ∧ isFlashing s = false.
Proof. apply reachable_result_partition. Qed.

Lemma result_matches_selection_witness :
  ∃ targets, targetSet resultedState = Some targets
             ∧ {[0]} = selected resultedState ∩ targets
             ∧ list_to_set [2; 4; 6; 8; 10; 12; 14; 16; 18; 20; 22; 24]
               = (selected resultedState ∖ targets)
                 ∪ (targets ∖ selected resultedState)
             ∧ isFlashing resultedState = false.
Proof.
  exact (result_matches_selection resultedState _
           resultedState_reachable eq_refl).
Defined.

(** ** The countdown *)

(** The displayed seconds stay between 0 and the full duration of 10 in
    every reachable state. *)
Theorem countdown_within_bounds (s : State) :
  reachable s → 0 <= timeLeft s <= 10.
Proof.
  revert s. apply (reachable_invariant (λ s, 0 <= timeLeft s <= 10)).
  - by vm_compute.
  - intros s targets e _ IH _ _. unfold runEffect.
    case_decide; [|by vm_compute].
    rewrite handle_timeLeft. destruct e; try exact IH.
    case_decide; lia.
Qed.

Lemma countdown_within_bounds_witness : 0 <= timeLeft resultedState <= 10.
Proof. exact (countdown_within_bounds resultedState resultedState_reachable). Defined.

(** [n] ticks of the countdown take [n] off the displayed seconds and
    stop at 0; nothing else in the state changes. *)
Theorem countdown_after_ticks (n : nat) (s : State) :
  0 <= timeLeft s →
  Nat.iter n countdownTick s
  = setTimeLeft (λ t, Z.max 0 (t - Z.of_nat n)) s.
Proof.
  intros Ht. induction n as [|n IH].
  - destruct s as [lv fl fo sel res sc hint tl rd].
    cbn [timeLeft] in Ht. unfold Nat.iter, setTimeLeft. cbn [nat_rect].
    cbn [levelIndex isFlashing flashOn selected results score hintShown
         timeLeft round].
    f_equal. lia.
  - rewrite Nat.iter_succ, IH. unfold countdownTick, setTimeLeft.
    cbn [levelIndex isFlashing flashOn selected results score hintShown
         timeLeft round].
    f_equal. case_decide; lia.
Qed.

Lemma countdown_after_ticks_witness :
  Nat.iter 12 countdownTick initialState
  = setTimeLeft (λ t, Z.max 0 (t - Z.of_nat 12)) initialState.
Proof. apply (countdown_after_ticks 12 initialState). by vm_compute. Defined.

(** ** The best round *)

(** A submission never adds more than the number of targets, and, when
    there is at least one target, it adds exactly that number only for
    the selection that equals the target set. *)
Theorem perfect_score_iff (targets : gset Z) (s : State) :
  isFlashing s = false →
  targets ≠ ∅ →
  score (submit targets s) <= score s + Z.of_nat (size targets)
  ∧ (score (submit targets s) = score s + Z.of_nat (size targets)
     ↔ selected s = targets).
Proof.
  intros Hf Hne. rewrite submit_closed_form by done.
  cbn [setResults setScore score]. unfold roundDelta.
  assert (size (selected s ∩ targets) ≤ size targets)%nat as Hle
    by (apply subseteq_size; set_solver).
  assert (size targets ≠ 0)%nat as Hpos
    by (by apply size_non_empty_iff; intros ?%leibniz_equiv).
  split; [lia|]. split.
  - intros Heq.
    assert (size (selected s ∩ targets) = size targets) as Hin by lia.
    assert (size (selected s ∖ targets) = 0)%nat as Hout by lia.
    apply size_empty_inv, leibniz_equiv in Hout.
    assert (selected s ∩ targets = targets) as Hcap.
    { apply set_subseteq_size_eq; [set_solver|lia]. }
    apply set_eq. intros x. split.
    + intros Hx. destruct (decide (x ∈ targets)) as [|Hn]; [done|].
      assert (x ∈ selected s ∖ targets) as Hd
        by (by apply elem_of_difference).
      rewrite Hout in Hd. by apply not_elem_of_empty in Hd.
    + intros Hx. rewrite <- Hcap in Hx.
      by apply elem_of_intersection in Hx as [? _].
  - intros ->.
    replace (targets ∩ targets) with targets by set_solver.
    replace (targets ∖ targets) with (∅ : gset Z) by set_solver.
    rewrite size_empty. lia.
Qed.

Lemma perfect_score_iff_witness :
  score (submit {[3]} (mkState 0 false false {[3; 4]} None 0 false 0 0))
  <= 0 + Z.of_nat (size ({[3]} : gset Z)).
Proof.
  refine (proj1 (perfect_score_iff {[3]}
            (mkState 0 false false {[3; 4]} None 0 false 0 0) eq_refl _)).
  by vm_compute.
Defined.

(** ** Starting rounds *)

(** Whenever an event changes the level or the round counter, the state
    it leaves is a fresh round: flashing and lit, no selection, no
    result, the hint hidden, the countdown at 10; the score is the one
    before. *)
Theorem change_starts_fresh_round (s s' : State) (e : Event) :
  dispatch s e = Some s' →
  levelIndex s' ≠ levelIndex s ∨ round s' ≠ round s →
  isFlashing s' = true ∧ flashOn s' = true ∧ selected s' = ∅
  ∧ results s' = None ∧ hintShown s' = false ∧ timeLeft s' = 10
  ∧ score s' = score s.
Proof.
  intros (targets & _ & ->)%dispatch_Some Hch.
  destruct (live s e) eqn:Hl; [|by destruct Hch].
  revert Hch. unfold runEffect. case_decide as Hdeps.
  - intros [?|?]; by destruct Hdeps.
  - intros _. repeat (split; [done|]).
    cbn [startRound setTimeLeft setHintShown setResults setSelected
         setFlashOn setIsFlashing score].
    destruct (handle_score targets e s) as [_ Hsc]. apply Hsc.
    intros ->. apply Hdeps. cbn [handle]. unfold submit.
    destruct (isFlashing s); [done|]. by destruct (foldl _ _ _).
Qed.

Lemma change_starts_fresh_round_witness :
  isFlashing (startRound (nextLevel resultedState)) = true
  ∧ flashOn (startRound (nextLevel resultedState)) = true
  ∧ selected (startRound (nextLevel resultedState)) = ∅
  ∧ results (startRound (nextLevel resultedState)) = None
  ∧ hintShown (startRound (nextLevel resultedState)) = false
  ∧ timeLeft (startRound (nextLevel resultedState)) = 10
  ∧ score (startRound (nextLevel resultedState)) = score resultedState.
Proof.
  apply (change_starts_fresh_round resultedState _ ClickNext).
  - by vm_compute.
  - left. by vm_compute.
Defined.

(** The navigation buttons are disabled exactly where their handler
    would change nothing, and a click on the button of the level that is
    already active leaves the state as it is: unlike Restart, it does
    not start the round again. *)
Theorem idle_navigation (s : State) :
  validLevel s →
  (live s ClickNext = false ↔ nextLevel s = s)
  ∧ (live s ClickPrev = false ↔ prevLevel s = s)
  ∧ dispatch s (ClickLevel (levelIndex s)) = Some s.
Proof.
  intros Hv. pose proof Hv as Hv'. unfold validLevel in Hv'.
  change (Z.of_nat (length LEVELS)) with 5 in Hv'.
  destruct (targetSet_valid s Hv) as [targets Ht].
  destruct s as [lv fl fo sel res sc hint tl rd].
  cbn [levelIndex] in Hv'. split; [|split].
  - cbn [live levelIndex]. change (Z.of_nat (length LEVELS) - 1) with 4.
    rewrite negb_false_iff, bool_decide_eq_true.
    unfold nextLevel, setLevelIndex. cbn.
    split; [intros ->; f_equal; lia|intros [= Heq]; lia].
  - cbn [live levelIndex]. rewrite negb_false_iff, bool_decide_eq_true.
    unfold prevLevel, setLevelIndex. cbn.
    split; [intros ->; f_equal; lia|intros [= Heq]; lia].
  - unfold dispatch. rewrite Ht. cbn [mbind option_bind live levelIndex].
    change (Z.of_nat (length LEVELS)) with 5.
    rewrite bool_decide_eq_true_2 by lia.
    unfold runEffect. rewrite decide_True; [done|]. by cbn.
Qed.

Lemma idle_navigation_witness :
  dispatch resultedState (ClickLevel (levelIndex resultedState))
  = Some resultedState.
Proof.
  refine (proj2 (proj2 (idle_navigation resultedState _))). by vm_compute.
Defined.

(** ** What the grid shows *)

Section ViewFacts.

Implicit Types (s : State) (c : Cell) (targets : gset Z).

(** Membership of a class name in a list of class names that is known
    entry by entry. *)
Ltac in_names :=
  repeat first [apply list_elem_of_here | apply list_elem_of_further].

Ltac not_in_names H :=
  exfalso;
  repeat (apply elem_of_cons in H as [H|H]; [discriminate H|]);
  by apply elem_of_nil in H.

(** The marks of a result that is the partition of the selection along
    the target set. *)
Lemma mark_classes targets s c r :
  results s = Some r →
  correct r = selected s ∩ targets →
  incorrect r = (selected s ∖ targets) ∪ (targets ∖ selected s) →
  ("correct"%string ∈ cellClassNames targets s c
   ↔ index c ∈ selected s ∧ index c ∈ targets)
  ∧ ("incorrect"%string ∈ cellClassNames targets s c
     ↔ (index c ∈ selected s ∧ (index c ∉ targets))
       ∨ ((index c ∉ selected s) ∧ index c ∈ targets)).
Proof.
  intros Hr Hc Hi. unfold cellClassNames. rewrite Hr, Hc, Hi.
  destruct (isFlashing s), (flashOn s); cbn [andb];
    repeat case_bool_decide; cbn [app];
    repeat match goal with
      | H : _ ∈ (_ ∩ _) |- _ => apply elem_of_intersection in H
      | H : ¬ (_ ∈ (_ ∩ _)) |- _ => rewrite elem_of_intersection in H
      | H : _ ∈ (_ ∪ _) |- _ =>
          rewrite elem_of_union, !elem_of_difference in H
      | H : ¬ (_ ∈ (_ ∪ _)) |- _ =>
          rewrite elem_of_union, !elem_of_difference in H
      end;
    (split;
     (split;
      [intros Hin; first [tauto | not_in_names Hin]
      |intros Hx; first [by in_names | tauto]])).
Qed.

End ViewFacts.



(** In a reachable state with a result, a cell is marked correct exactly
    when it is a selected target, and incorrect exactly when it is
    selected without being a target or a target without being selected;
    a cell that is neither selected nor a target gets neither mark. *)
Theorem result_marks (s : State) (targets : gset Z) (c : Cell) :
  reachable s →
  is_Some (results s) →
  targetSet s = Some targets →
  ("correct"%string ∈ cellClassNames targets s c
   ↔ index c ∈ selected s ∧ index c ∈ targets)
  ∧ ("incorrect"%string ∈ cellClassNames targets s c
     ↔ (index c ∈ selected s ∧ (index c ∉ targets))
       ∨ ((index c ∉ selected s) ∧ index c ∈ targets)).
Proof.
  intros Hreach [r Hr] Ht.
  destruct (reachable_result_partition s r Hreach Hr)
    as (T & HT & Hc & Hi & _).
  assert (T = targets) as -> by congruence.
  by apply (mark_classes targets s c r).
Qed.

Lemma result_marks_witness :
  ("correct"%string ∈ cellClassNames evenTargets resultedState (mkCell 4 0 4)
   ↔ 4 ∈ selected resultedState ∧ 4 ∈ evenTargets)
  ∧ ("incorrect"%string
       ∈ cellClassNames evenTargets resultedState (mkCell 4 0 4)
     ↔ (4 ∈ selected resultedState ∧ (4 ∉ evenTargets))
       ∨ ((4 ∉ selected resultedState) ∧ 4 ∈ evenTargets)).
Proof.
  apply (result_marks resultedState evenTargets (mkCell 4 0 4)).
  - exact resultedState_reachable.
  - by eexists.
  - by vm_compute.
Defined.

(** The status word of the actions panel tests the result before the
    flashing flag, the header of the grid the other way round; in every
    reachable state the two agree on the phase. *)
Theorem status_agrees_with_phase (s : State) :
  reachable s →
  statusLabel s
  = match phase s with
    | Memorizing => "Watching"
    | Selecting => "Ready"
    | Resulted => "Results"
    end%string.
Proof.
  intros Hr. unfold statusLabel, phase.
  destruct (isFlashing s) eqn:Hf.
  - destruct (reachable_flashing_clean s Hr Hf) as [-> _]. done.
  - by destruct (results s).
Qed.

Lemma status_agrees_with_phase_witness :
  statusLabel resultedState = "Results"%string.
Proof.
  exact (status_agrees_with_phase resultedState resultedState_reachable).
Defined.

(** The two counters of the result summary never count a cell twice:
    together they give the number of cells that are selected or targets,
    and the correct counter is at most the number of targets. *)
Theorem result_counts_add_up (s : State) (targets : gset Z) (a b : nat) :
  reachable s →
  targetSet s = Some targets →
  resultCounts s = Some (a, b) →
  (a + b)%nat = size (selected s ∪ targets) ∧ (a ≤ size targets)%nat.
Proof.
  intros Hreach Ht. unfold resultCounts.
  destruct (results s) as [r|] eqn:Hr; [|done]. intros [= <- <-].
  destruct (reachable_result_partition s r Hreach Hr)
    as (T & HT & Hc & Hi & _).
  assert (T = targets) as -> by congruence.
  rewrite Hc, Hi. split.
  - rewrite <- size_union by set_solver. f_equal.
    apply set_eq. intros x.
    rewrite !elem_of_union, elem_of_intersection, !elem_of_difference.
    destruct (decide (x ∈ selected s)), (decide (x ∈ targets)); tauto.
  - apply subseteq_size. set_solver.
Qed.

Lemma result_counts_add_up_witness :
  (1 + 12)%nat = size (selected resultedState ∪ evenTargets)
  ∧ (1 ≤ size evenTargets)%nat.
Proof.
  apply (result_counts_add_up resultedState evenTargets 1 12).
  - exact resultedState_reachable.
  - by vm_compute.
  - by vm_compute.
Defined.

(** ** The grid, the other way round *)

(** Every cell of a grid of side [n > 0] lies in a row and a column
    between 0 and [n - 1] and its index is [row * n + col]; so two cells
    of the grid in the same row and column are the same cell. *)
Theorem cell_position (n : Z) (c : Cell) :
  0 < n →
  c ∈ buildCellsOf n →
  0 <= row c < n ∧ 0 <= col c < n ∧ index c = row c * n + col c
  ∧ (∀ c', c' ∈ buildCellsOf n → row c' = row c → col c' = col c → c' = c).
Proof.
  intros Hn (i & Hi & ->)%elem_of_buildCellsOf.
  assert (∀ j, 0 <= j < n * n →
            0 <= j / n < n ∧ 0 <= Z.rem j n < n ∧ j = j / n * n + Z.rem j n)
    as Hpos.
  { intros j Hj. rewrite Z.rem_mod_nonneg by lia.
    pose proof (Z.mod_pos_bound j n Hn).
    pose proof (Z.div_mod j n ltac:(lia)).
    split; [|lia]. split; [apply Z.div_pos; lia|].
    apply Z.div_lt_upper_bound; lia. }
  cbn [cellAt row col index].
  destruct (Hpos i Hi) as (Hr & Hc & Hidx).
  split; [done|]. split; [done|]. split; [done|].
  intros c' (j & Hj & ->)%elem_of_buildCellsOf. cbn [cellAt row col].
  intros Hrow Hcol. destruct (Hpos j Hj) as (_ & _ & Hjdx).
  assert (j = i) as -> by (rewrite Hjdx, Hidx, Hrow, Hcol; reflexivity).
  reflexivity.
Qed.

Lemma cell_position_witness :
  0 <= row (mkCell 13 2 3) < 5 ∧ 0 <= col (mkCell 13 2 3) < 5
  ∧ index (mkCell 13 2 3) = row (mkCell 13 2 3) * 5 + col (mkCell 13 2 3)
  ∧ (∀ c', c' ∈ buildCellsOf 5 → row c' = row (mkCell 13 2 3) →
       col c' = col (mkCell 13 2 3) → c' = mkCell 13 2 3).
Proof.
  apply (cell_position 5 (mkCell 13 2 3)); [lia|].
  apply elem_of_buildCellsOf. exists 13. split; [lia|reflexivity].
Defined.

(** ** Target sets in general *)

(** The target set of a render lies within the grid. *)
Lemma targetSet_inGrid (s : State) (targets : gset Z) :
  targetSet s = Some targets → ∀ i, i ∈ targets → 0 <= i < 25.
Proof.
  intros Ht. unfold targetSet in Ht.
  destruct (currentLevel s) as [lv|]; [|discriminate Ht].
  change (Some (targetSetOf buildCells lv) = Some targets) in Ht.
  apply (inj Some) in Ht. subst targets.
  intros i (Hi & _)%elem_of_targetSetOf_grid.
  unfold inGrid, GRID_SIZE in Hi. lia.
Qed.

(** For any list of cells and any level, the target set holds exactly
    the indices of the cells that satisfy the level's rule, so it has at
    most as many elements as there are cells; the target set of a render
    lies within the 25 grid indices. *)
Theorem targetSet_of_cells (cells : list Cell) (level : Level) :
  (∀ i, i ∈ targetSetOf cells level
        ↔ ∃ c, c ∈ cells ∧ index c = i ∧ ruleFn level c = true)
  ∧ (size (targetSetOf cells level) ≤ length cells)%nat
  ∧ (∀ s targets, targetSet s = Some targets →
       (∀ i, i ∈ targets → 0 <= i < 25) ∧ (size targets ≤ 25)%nat).
Proof.
  assert (∀ cs lv (acc : gset Z),
            (size (foldl (λ s c, if ruleFn lv c then s ∪ {[index c]} else s)
                         acc cs)
             ≤ size acc + length cs)%nat) as Hacc.
  { intros cs lv. induction cs as [|c cs IH]; intros acc; cbn [foldl length].
    - lia.
    - etrans; [apply IH|]. destruct (ruleFn lv c); [|lia].
      rewrite size_union_alt.
      assert (size (({[index c]} : gset Z) ∖ acc) ≤ 1)%nat; [|lia].
      rewrite <- (size_singleton (C:=gset Z) (index c)).
      apply subseteq_size. set_solver. }
  assert (∀ cs lv, (size (targetSetOf cs lv) ≤ length cs)%nat) as Hsize.
  { intros cs lv. unfold targetSetOf.
    etrans; [apply Hacc|]. rewrite size_empty. lia. }
  split; [intros i; apply elem_of_targetSetOf|]. split; [apply Hsize|].
  intros s targets Ht. unfold targetSet in Ht.
  destruct (currentLevel s) as [lv|]; [|discriminate Ht].
  change (Some (targetSetOf buildCells lv) = Some targets) in Ht.
  apply (inj Some) in Ht. subst targets. split.
  - intros i (Hi & _)%elem_of_targetSetOf_grid.
    unfold inGrid, GRID_SIZE in Hi. lia.
  - apply (Hsize buildCells lv).
Qed.

Lemma targetSet_of_cells_witness :
  (∀ i, i ∈ evenTargets → 0 <= i < 25) ∧ (size evenTargets ≤ 25)%nat.
Proof.
  apply (proj2 (proj2 (targetSet_of_cells [] (mkLevel 1 evenRule)))
           resultedState evenTargets).
  by vm_compute.
Defined.

(** ** Building a selection *)

Section SelectionFacts.

Implicit Types (s : State) (l : list Z).

Lemma toggleSelect_frame idx s :
  levelIndex (toggleSelect idx s) = levelIndex s
  ∧ round (toggleSelect idx s) = round s
  ∧ phase (toggleSelect idx s) = phase s.
Proof.
  unfold toggleSelect, phase.
  destruct (isFlashing s) eqn:Hf; [by rewrite Hf|].
  destruct (results s) eqn:Hr; [by rewrite Hf, Hr|].
  cbn [setSelected levelIndex round isFlashing results]. by rewrite Hf, Hr.
Qed.

(** A click on a rendered cell is a call of the handler. *)
Lemma dispatch_cell s idx :
  validLevel s → 0 <= idx < 25 →
  dispatch s (ClickCell idx) = Some (toggleSelect idx s).
Proof.
  intros Hv Hidx. destruct (targetSet_valid s Hv) as [targets Ht].
  unfold dispatch. rewrite Ht. cbn [mbind option_bind live handle].
  rewrite bool_decide_eq_true_2.
  - unfold runEffect.
    destruct (toggleSelect_frame idx s) as (Hl & Hr & _).
    by rewrite decide_True.
  - unfold buildCells. rewrite buildCellsOf_indices. apply elem_of_seqZ.
    unfold GRID_SIZE. lia.
Qed.

Lemma run_app s (es1 es2 : list Event) :
  run s (es1 ++ es2) = s' ← run s es1; run s' es2.
Proof.
  revert s. induction es1 as [|e es1 IH]; intros s; [done|].
  cbn [app run]. destruct (dispatch s e) as [s1|]; [|done]. cbn. apply IH.
Qed.

End SelectionFacts.

(** Toggling two cells gives the same state in either order. *)
Theorem toggleSelect_commute (i j : Z) (s : State) :
  toggleSelect i (toggleSelect j s) = toggleSelect j (toggleSelect i s).
Proof.
  destruct s as [lv fl fo sel res sc hint tl rd]. unfold toggleSelect.
  cbn [isFlashing results]. destruct fl; [done|]. destruct res; [done|].
  unfold setSelected.
  cbn [levelIndex isFlashing flashOn selected results score hintShown
       timeLeft round].
  f_equal. apply set_eq. intros x.
  destruct (decide (i = j)) as [->|Hij]; [done|].
  repeat case_decide; set_unfold;
    destruct (decide (x = i)), (decide (x = j)); naive_solver.
Qed.

(** Clicks on listed cells, one after the other. *)
Lemma run_clicks (l : list Z) (s : State) :
  validLevel s →
  phase s = Selecting →
  NoDup l →
  (∀ i, i ∈ l → 0 <= i < 25) →
  run s (ClickCell <$> l)
  = Some (setSelected
            (λ sel, (sel ∖ list_to_set l) ∪ (list_to_set l ∖ sel)) s).
Proof.
  revert s. induction l as [|x l IH]; intros s Hv Hph Hnd Hin.
  - cbn [fmap list_fmap run]. f_equal.
    destruct s as [lv fl fo sel res sc hint tl rd]. unfold setSelected.
    cbn [levelIndex isFlashing flashOn selected results score hintShown
         timeLeft round].
    f_equal. set_solver.
  - apply NoDup_cons in Hnd as [Hx Hnd].
    cbn [fmap list_fmap run].
    change (list_fmap Z Event ClickCell l) with (ClickCell <$> l).
    rewrite dispatch_cell; [|done|apply Hin, list_elem_of_here].
    cbn [mbind option_bind].
    destruct (toggleSelect_frame x s) as (Hlv & _ & Hph').
    rewrite IH; [|by unfold validLevel; rewrite Hlv|congruence|done|].
    2:{ intros i Hi. by apply Hin, list_elem_of_further. }
    f_equal. apply phase_Selecting in Hph as [Hf Hr].
    destruct s as [lv fl fo sel res sc hint tl rd].
    cbn [isFlashing results] in Hf, Hr. subst fl res.
    unfold toggleSelect, setSelected.
    cbn [levelIndex isFlashing flashOn selected results score hintShown
         timeLeft round].
    f_equal. apply set_eq. intros y.
    assert (x ∉ (list_to_set l : gset Z)) by by rewrite elem_of_list_to_set.
    case_decide; set_unfold;
      destruct (decide (y = x)) as [->|]; naive_solver.
Qed.

(** In the Selecting phase, clicking the cells of a duplicate-free list
    one after the other selects the listed cells that were not selected
    and deselects those that were; from an empty selection the result is
    the set of the listed cells. *)
Theorem clicks_build_selection (l : list Z) (s : State) :
  validLevel s →
  phase s = Selecting →
  NoDup l →
  (∀ i, i ∈ l → 0 <= i < 25) →
  run s (ClickCell <$> l)
  = Some (setSelected
            (λ sel, (sel ∖ list_to_set l) ∪ (list_to_set l ∖ sel)) s).
Proof. apply run_clicks. Qed.

Lemma clicks_build_selection_witness :
  run (mkState 2 false false {[3]} None 5 false 0 1)
      (ClickCell <$> [3; 7; 11])
  = Some (setSelected
            (λ sel, (sel ∖ list_to_set [3; 7; 11])
                    ∪ (list_to_set [3; 7; 11] ∖ sel))
            (mkState 2 false false {[3]} None 5 false 0 1)).
Proof.
  apply (clicks_build_selection [3; 7; 11]
           (mkState 2 false false {[3]} None 5 false 0 1)).
  - by vm_compute.
  - reflexivity.
  - repeat (apply NoDup_cons; split;
            [intros Hin; repeat (apply elem_of_cons in Hin as [Hin|Hin];
                                 [discriminate Hin|]);
             by apply elem_of_nil in Hin|]).
    apply NoDup_nil_2.
  - intros i Hi.
    repeat (apply elem_of_cons in Hi as [->|Hi]; [lia|]).
    by apply elem_of_nil in Hi.
Defined.

(** Every round can be won: from an empty selection in the Selecting
    phase, clicking each target once and then Submit gives a result with
    all targets correct and nothing incorrect, and adds the number of
    targets to the score. *)
Theorem perfect_round (s : State) (targets : gset Z) :
  targetSet s = Some targets →
  phase s = Selecting →
  selected s = ∅ →
  ∃ s', run s ((ClickCell <$> elements targets) ++ [ClickSubmit]) = Some s'
        ∧ results s' = Some (mkResults targets ∅)
        ∧ score s' = score s + Z.of_nat (size targets)
        ∧ phase s' = Resulted.
Proof.
  intros Ht Hph Hsel.
  assert (validLevel s) as Hv.
  { unfold targetSet, currentLevel in Ht. unfold validLevel.
    destruct (decide (0 <= levelIndex s)) as [Hle|]; [|discriminate Ht].
    destruct (LEVELS !! Z.to_nat (levelIndex s)) eqn:Hlk; [|discriminate Ht].
    apply lookup_lt_Some in Hlk. lia. }
  pose proof (targetSet_inGrid s targets Ht) as Hgrid.
  rewrite run_app, (run_clicks _ s Hv Hph);
    [|apply NoDup_elements|by intros i Hi%elem_of_elements; apply Hgrid].
  cbn [mbind option_bind run]. rewrite list_to_set_elements_L.
  apply phase_Selecting in Hph as [Hf Hr].
  destruct s as [lv fl fo sel res sc hint tl rd].
  cbn [isFlashing results selected] in Hf, Hr, Hsel. subst fl res sel.
  unfold setSelected.
  cbn [levelIndex isFlashing flashOn selected results score hintShown
       timeLeft round].
  replace ((∅ ∖ targets) ∪ (targets ∖ ∅)) with targets by set_solver.
  unfold dispatch.
  rewrite (targetSet_levelIndex _ _ eq_refl : targetSet _ = targetSet
             (mkState lv false fo ∅ None sc hint tl rd)), Ht.
  cbn [mbind option_bind live handle isFlashing results orb negb].
  rewrite bool_decide_eq_false_2 by (by intros [? ?]). cbn [negb orb].
  rewrite submit_closed_form by done.
  unfold runEffect. rewrite decide_True by done.
  eexists. split; [reflexivity|].
  cbn [setResults setScore results score selected isFlashing].
  unfold roundResults, roundDelta, phase.
  cbn [isFlashing results].
  replace (targets ∩ targets) with targets by set_solver.
  replace (targets ∖ targets) with (∅ : gset Z) by set_solver.
  rewrite (left_id_L ∅ (∪)), size_empty.
  split; [done|]. split; [lia|done].
Qed.

Lemma perfect_round_witness :
  ∃ s', run (stopFlashing initialState)
            ((ClickCell <$> elements evenTargets) ++ [ClickSubmit]) = Some s'
        ∧ results s' = Some (mkResults evenTargets ∅)
        ∧ score s' = score (stopFlashing initialState)
                     + Z.of_nat (size evenTargets)
        ∧ phase s' = Resulted.
Proof.
  apply (perfect_round (stopFlashing initialState) evenTargets).
  - by vm_compute.
  - reflexivity.
  - reflexivity.
Defined.

(** ** The end of the flashing period *)

(** When the timeout fires in a reachable flashing state, the round
    enters the Selecting phase with an empty selection: no cell is lit
    or marked, every cell shows the bare class, the countdown display
    keeps its value and the Submit button becomes enabled. *)
Theorem flash_timeout_opens_selection (s : State) :
  reachable s →
  isFlashing s = true →
  ∃ s', dispatch s FlashTimeout = Some s'
        ∧ phase s' = Selecting
        ∧ selected s' = ∅
        ∧ flashOn s' = false
        ∧ timeLeft s' = timeLeft s
        ∧ score s' = score s
        ∧ live s' ClickSubmit = true
        ∧ (∀ targets c, cellClassNames targets s' c = ["cell"%string]).
Proof.
  intros Hreach Hf.
  destruct (reachable_flashing_clean s Hreach Hf) as [Hres Hsel].
  destruct (targetSet_valid s (reachable_valid s Hreach)) as [targets Ht].
  exists (stopFlashing s). split.
  - unfold dispatch. rewrite Ht. cbn [mbind option_bind live handle].
    rewrite Hf. unfold runEffect. by rewrite decide_True.
  - unfold phase, cellClassNames, stopFlashing.
    cbn [setFlashOn setIsFlashing isFlashing results selected flashOn
         timeLeft score live].
    rewrite Hres, Hsel. repeat (split; [done|]).
    intros T c. cbn [andb orb negb].
    by rewrite bool_decide_eq_false_2 by apply not_elem_of_empty.
Qed.

Lemma flash_timeout_opens_selection_witness :
  ∃ s', dispatch initialState FlashTimeout = Some s'
        ∧ phase s' = Selecting
        ∧ selected s' = ∅
        ∧ flashOn s' = false
        ∧ timeLeft s' = timeLeft initialState
        ∧ score s' = score initialState
        ∧ live s' ClickSubmit = true
        ∧ (∀ targets c, cellClassNames targets s' c = ["cell"%string]).
Proof.
  apply (flash_timeout_opens_selection initialState reachable_init eq_refl).
Defined.

(** ** Timers *)

Section TimerFacts.

Implicit Types (s : State) (h : Handles) (e : Event).

Lemma fires_flags s e : fires (flags (isFlashing s)) s e = live s e.
Proof. by destruct e. Qed.

(** One step with handles that mirror the flashing flag. *)
Lemma dispatchT_flags s e :
  dispatchT (s, flags (isFlashing s)) e
  = (λ s', (s', flags (isFlashing s'))) <$> dispatch s e.
Proof.
  unfold dispatchT, dispatch. cbn [fst snd].
  destruct (targetSet s) as [targets|]; [|done].
  cbn [mbind option_bind fmap option_fmap option_map].
  rewrite fires_flags. destruct (live s e) eqn:Hl; [|done].
  f_equal. f_equal. unfold afterEffect, runEffect.
  case_decide as Hdeps; [|done].
  rewrite handle_isFlashing. by destruct e.
Qed.

Lemma reachableT_flags (sh : State * Handles) :
  reachableT sh → reachable sh.1 ∧ sh.2 = flags (isFlashing sh.1).
Proof.
  induction 1 as [|[s h] e sh' _ [Hr Hh] Hd];
    [split; [constructor|reflexivity]|].
  cbn [fst snd] in Hr, Hh. subst h. rewrite dispatchT_flags in Hd.
  destruct (dispatch s e) as [s'|] eqn:Hs; [|done].
  injection Hd as <-. split; [|done]. by eapply reachable_step.
Qed.

Lemma reachable_flagsT s :
  reachable s → reachableT (s, flags (isFlashing s)).
Proof.
  induction 1 as [|s e s' _ IH Hd]; [constructor|].
  eapply reachableT_step; [exact IH|]. rewrite dispatchT_flags, Hd. done.
Qed.

End TimerFacts.

(** The three timers of a round are installed exactly while the cells
    flash: all of them throughout the flashing period, none of them once
    the timeout has fired, and never the timers of two rounds at once. *)
Theorem timers_installed_iff_flashing (s : State) (h : Handles) :
  reachableT (s, h) →
  toggle h = isFlashing s
  ∧ countdown h = isFlashing s
  ∧ stop h = isFlashing s.
Proof.
  intros [_ Hh]%reachableT_flags. cbn [fst snd] in Hh. by subst h.
Qed.

Lemma timers_installed_iff_flashing_witness :
  toggle (mkHandles true true true) = isFlashing initialState
  ∧ countdown (mkHandles true true true) = isFlashing initialState
  ∧ stop (mkHandles true true true) = isFlashing initialState.
Proof.
  exact (timers_installed_iff_flashing initialState
           (mkHandles true true true) reachableT_init).
Defined.

(** Tracking the timer handles adds nothing to the states of the
    component: an event does to a reachable state with its handles what
    it does to the state alone, and every reachable state occurs with
    handles. *)
Theorem handles_do_not_change_behaviour :
  (∀ sh e, reachableT sh → fst <$> dispatchT sh e = dispatch sh.1 e)
  ∧ (∀ s, reachable s → ∃ h, reachableT (s, h))
  ∧ (∀ sh, reachableT sh → reachable sh.1).
Proof.
  split; [|split].
  - intros [s h] e [_ Hh]%reachableT_flags. cbn [fst snd] in *. subst h.
    rewrite dispatchT_flags. by destruct (dispatch s e).
  - intros s Hr. eexists. by apply reachable_flagsT.
  - by intros sh [? _]%reachableT_flags.
Qed.

Lemma handles_do_not_change_behaviour_witness :
  fst <$> dispatchT initialT FlashTimeout = dispatch initialT.1 FlashTimeout.
Proof.
  exact (proj1 handles_do_not_change_behaviour initialT FlashTimeout
           reachableT_init).
Defined.

(** ** Submitting at the edges *)

(** Submitting an empty selection adds nothing to the score and marks
    every target as incorrect (missed) and nothing as correct; with no
    targets either, both sets of the result are empty. *)
Theorem submit_empty_selection (targets : gset Z) (s : State) :
  isFlashing s = false →
  selected s = ∅ →
  score (submit targets s) = score s
  ∧ results (submit targets s) = Some (mkResults ∅ targets).
Proof.
  intros Hf Hsel. rewrite submit_closed_form by done.
  cbn [setResults setScore score results].
  unfold roundDelta, roundResults. rewrite Hsel.
  replace (∅ ∩ targets) with (∅ : gset Z) by set_solver.
  replace (∅ ∖ targets) with (∅ : gset Z) by set_solver.
  replace (∅ ∪ targets ∖ ∅) with targets by set_solver.
  rewrite size_empty. split; [lia|done].
Qed.

Lemma submit_empty_selection_witness :
  score (submit evenTargets (stopFlashing initialState))
  = score (stopFlashing initialState)
  ∧ results (submit evenTargets (stopFlashing initialState))
    = Some (mkResults ∅ evenTargets).
Proof.
  apply (submit_empty_selection evenTargets (stopFlashing initialState));
    reflexivity.
Defined.

(** Running the handler [submit] a second time on its own outcome gives
    the same result and selection again; only the score takes the round
    contribution a second time. *)
Theorem submit_twice (targets : gset Z) (s : State) :
  isFlashing s = false →
  results (submit targets (submit targets s)) = results (submit targets s)
  ∧ selected (submit targets (submit targets s)) = selected s
  ∧ score (submit targets (submit targets s)) - score (submit targets s)
    = score (submit targets s) - score s.
Proof.
  intros Hf. rewrite (submit_closed_form targets s) by done.
  rewrite submit_closed_form by done.
  cbn [setResults setScore score results selected]. repeat split. lia.
Qed.

Lemma submit_twice_witness :
  results (submit evenTargets (submit evenTargets resultedState))
  = results (submit evenTargets resultedState)
  ∧ selected (submit evenTargets (submit evenTargets resultedState))
    = selected resultedState
  ∧ score (submit evenTargets (submit evenTargets resultedState))
    - score (submit evenTargets resultedState)
    = score (submit evenTargets resultedState) - score resultedState.
Proof.
  exact (submit_twice evenTargets resultedState eq_refl).
Defined.
